(** * bredele/retry: the retry wrapper of [src/lib/index.ts]

    A shallow embedding of the wrapper returned by the default export of
    [src/lib/index.ts], with its helpers [delay], [shouldRetryError] and
    [calculateDelay], and the properties of the attempt loop.

    Modelling choices.
    - JavaScript numbers that measure milliseconds are IEEE-754 binary64
      values, the primitive [float] of the kernel, with its rounding, its
      infinities and its NaN.  [Math.min] is written out; [Math.pow] and
      [Math.random] are builtins of the host and are parameters: [pow] is
      applied to the factor and to the integer loop index, [random] gives
      the number returned at each successive draw.
      [maxAttempts], documented as a number of attempts, and the loop
      variable [attempt] are integers [Z].
    - A raised or returned value is a [Value]: an [Error] object (a [name]
      and a [message]), [undefined], [null], a boolean, a string, any other
      value for which [String] yields a text, or a value for which [String]
      throws.
    - The wrapped operation is external: it is given by the outcome of each
      of its successive invocations.  The state threaded through the wrapper
      counts the invocations and the draws made so far, and keeps a log of
      what happened ([Invoke] and [Wait] events); the log is ghost state,
      the source does not have it. *)

From Stdlib Require Import ZArith List String Bool Lia Floats.
Import ListNotations.

Set Warnings "-inexact-float".

Local Open Scope Z_scope.

(** ** Values, errors and outcomes *)

(** An [Error] instance, as far as the wrapper observes it. *)
Record Error : Type := mkError { name : string; message : string }.

(** What an operation can raise or return.  [VOther text] is a value of any
    other kind (a number, a symbol, an object that is not an [Error]) that
    [String] converts to [text]; [VOpaque thrown] is a value that [String]
    cannot convert, the conversion throwing [thrown] (a [TypeError] for an
    object without a prototype, anything for an object whose [toString]
    throws). *)
Inductive Value : Type :=
| VUndefined
| VNull
| VBool (b : bool)
| VString (s : string)
| VError (e : Error)
| VOther (text : string)
| VOpaque (thrown : Value).

(** The result of an expression that may throw. *)
Inductive Try (A : Type) : Type :=
| Done (a : A)
| Throws (thrown : Value).

Arguments Done {A} a.
Arguments Throws {A} thrown.

(** [String(v)] *)
Definition String_ (v : Value) : Try string :=
  match v with
  | VUndefined => Done "undefined"
  | VNull => Done "null"
  | VBool true => Done "true"
  | VBool false => Done "false"
  | VString s => Done s
  | VError e =>
      Done (if String.eqb (message e) "" then name e
            else if String.eqb (name e) "" then message e
            else name e ++ ": " ++ message e)
  | VOther text => Done text
  | VOpaque thrown => Throws thrown
  end%string.

(** [new Error(msg)]: the name comes from [Error.prototype]. *)
Definition new_Error (msg : string) : Error :=
  {| name := "Error"; message := msg |}.

(** [error instanceof Error ? error : new Error(String(error))] (line 89) *)
Definition normalize (error : Value) : Try Error :=
  match error with
  | VError e => Done e
  | _ =>
      match String_ error with
      | Done text => Done (new_Error text)
      | Throws thrown => Throws thrown
      end
  end.

(** The outcome of [await fn(...args)]. *)
Inductive Outcome : Type :=
| Returned (result : Value)
| Raised (error : Value).

(** How the promise of the wrapper settles. *)
Inductive Completion : Type :=
| Resolved (result : Value)
| Rejected (reason : Value).

(** The value thrown by [throw lastError]: [undefined] as long as
    [lastError] has not been assigned. *)
Definition thrown_lastError (lastError : option Error) : Value :=
  match lastError with
  | Some e => VError e
  | None => VUndefined
  end.

(** ** Options *)

Record RetryOptions : Type := mkOptions {
  errors : option (list string);
  intervals : option float;
  backoff : option float;
  maxAttempts : option Z;
  maxInterval : option float;
  jitter : option bool
}.

(** [a ?? b] *)
Definition nullish {A : Type} (a : option A) (b : A) : A :=
  match a with Some x => x | None => b end.

Notation "a ?? b" := (nullish a b) (at level 45, left associativity).

(** ** The state threaded through the wrapper *)

Inductive Event : Type :=
| Invoke (attempt : Z)
| Wait (ms : float).

Record State : Type := mkState {
  calls : nat;
  draws : nat;
  log : list Event
}.

Definition M (A : Type) : Type := State -> A * State.

Definition ret {A : Type} (a : A) : M A := fun s => (a, s).

Definition bind {A B : Type} (c : M A) (k : A -> M B) : M B :=
  fun s => let (a, s') := c s in k a s'.

Notation "x <- c ;; k" := (bind c (fun x => k))
  (at level 61, c at next level, right associativity).
Notation "c ;;; k" := (bind c (fun _ => k))
  (at level 61, right associativity).

(** The operation, once its arguments are given: the outcome of its
    invocation number [n], counted from 0. *)
Definition Operation : Type := list Value -> nat -> Outcome.

(** [await fn(...args)] inside the [try] block, at loop index [attempt]. *)
Definition call (fn : Operation) (args : list Value) (attempt : Z) : M Outcome :=
  fun s => (fn args (calls s),
            {| calls := S (calls s); draws := draws s;
               log := log s ++ [Invoke attempt] |}).

(** [Math.random()] *)
Definition Math_random (random : nat -> float) : M float :=
  fun s => (random (draws s),
            {| calls := calls s; draws := S (draws s); log := log s |}).

(** [await delay(ms)] (lines 18-20) *)
Definition delay (ms : float) : M unit :=
  fun s => (tt, {| calls := calls s; draws := draws s;
                   log := log s ++ [Wait ms] |}).

(** ** The helpers *)

(** [a] is the negative zero. *)
Definition is_neg_zero (a : float) : bool :=
  match classify a with
  | NZero => true
  | _ => false
  end.

(** [Math.min(a, b)]: NaN when either argument is NaN, and the negative
    zero below the positive one. *)
Definition Math_min (a b : float) : float :=
  if is_nan a || is_nan b then nan
  else if (a <? b)%float then a
  else if (b <? a)%float then b
  else if is_neg_zero a then a else b.

(** [allowedErrors.includes(x)] *)
Definition includes (allowedErrors : list string) (x : string) : bool :=
  existsb (String.eqb x) allowedErrors.

(** [shouldRetryError] (lines 26-31) *)
Definition shouldRetryError (error : Error) (allowedErrors : option (list string))
  : bool :=
  match allowedErrors with
  | None => true
  | Some allowed =>
      if Nat.eqb (List.length allowed) 0 then true
      else includes allowed (name error)
  end.

(** [calculateDelay] (lines 38-60); [pow] is [Math.pow]. *)
Definition calculateDelay (pow : float -> Z -> float) (random : nat -> float)
    (baseInterval backoff : float) (attempt : Z)
    (maxInterval : option float) (jitter : bool) : M float :=
  let delayMs := (baseInterval * pow backoff attempt)%float in
  delayMs <-
    (if jitter then
       r <- Math_random random ;;
       let jitterFactor := (0.8 + r * 0.4)%float in
       ret (delayMs * jitterFactor)%float
     else ret delayMs) ;;
  let delayMs :=
    match maxInterval with
    | Some maxInterval => Math_min delayMs maxInterval
    | None => delayMs
    end in
  ret delayMs.

(** ** The wrapper *)

Section Loop.

Variable pow : float -> Z -> float.
Variable random : nat -> float.
Variable fn : Operation.

(* the constants of lines 72-77, captured by the returned closure *)
Variable errors : option (list string).
Variables intervals backoff : float.
Variable maxAttempts : Z.
Variable maxInterval : option float.
Variable jitter : bool.

Variable args : list Value.

(** The [for] loop of lines 83-111 followed by the [throw] of line 114,
    entered at loop index [attempt].  [fuel] bounds the number of times
    the loop condition is evaluated; [None] means the fuel ran out.  When
    [String(error)] throws at line 89, inside the [catch] block, the
    function rejects with what it threw. *)
Fixpoint attempts (fuel : nat) (attempt : Z) (lastError : option Error)
  : M (option Completion) :=
  match fuel with
  | O => ret None
  | S fuel =>
      if attempt <? maxAttempts then
        outcome <- call fn args attempt ;;
        match outcome with
        | Returned result => ret (Some (Resolved result))
        | Raised error =>
            match normalize error with
            | Throws thrown => ret (Some (Rejected thrown))
            | Done lastError =>
                if negb (shouldRetryError lastError errors) then
                  ret (Some (Rejected (VError lastError)))
                else if attempt =? maxAttempts - 1 then
                  ret (Some (Rejected (VError lastError)))
                else
                  currentInterval <-
                    calculateDelay pow random intervals backoff attempt
                                   maxInterval jitter ;;
                  delay currentInterval ;;;
                  attempts fuel (attempt + 1) (Some lastError)
            end
        end
      else ret (Some (Rejected (thrown_lastError lastError)))
  end.

End Loop.

(** The default export (lines 67-116): the defaults of lines 72-77, then the
    function of lines 79-115, run on [args]. *)
Definition retry (pow : float -> Z -> float) (random : nat -> float)
    (fn : Operation) (options : RetryOptions)
    (args : list Value) (fuel : nat) : M (option Completion) :=
  let errors := errors options in
  let intervals := intervals options ?? 1000%float in
  let backoff := backoff options ?? 2%float in
  let maxAttempts := maxAttempts options ?? 3 in
  let maxInterval := maxInterval options in
  let jitter := jitter options ?? false in
  attempts pow random fn errors intervals backoff maxAttempts maxInterval
           jitter args fuel 0 None.

(** ** Reading the log *)

(** The loop indices at which the operation was invoked, in order. *)
Fixpoint invocations (l : list Event) : list Z :=
  match l with
  | [] => []
  | Invoke attempt :: l => attempt :: invocations l
  | Wait _ :: l => invocations l
  end.

(** The durations waited, in order. *)
Fixpoint waits (l : list Event) : list float :=
  match l with
  | [] => []
  | Invoke _ :: l => waits l
  | Wait ms :: l => ms :: waits l
  end.

(** [m] failed attempts from loop index [i] on, each followed by its wait. *)
Fixpoint rounds (wait : nat -> float) (i m : nat) : list Event :=
  match m with
  | O => []
  | S m => Invoke (Z.of_nat i) :: Wait (wait i) :: rounds wait (S i) m
  end.

(** The events of a run that invokes the operation [n] times: attempt [i]
    and attempt [i + 1] are separated by the wait [wait i], and nothing
    follows the last attempt. *)
Definition timeline (wait : nat -> float) (n : nat) : list Event :=
  rounds wait 0 (n - 1) ++ [Invoke (Z.of_nat (n - 1))].

(** The cap of lines 55-57. *)
Definition capped (maxInterval : option float) (delayMs : float) : float :=
  match maxInterval with
  | Some maxInterval => Math_min delayMs maxInterval
  | None => delayMs
  end.

(** The duration [calculateDelay] computes at loop index [i] when the run
    started with [d0] random numbers already drawn. *)
Definition waitAt (pow : float -> Z -> float) (random : nat -> float)
    (intervals backoff : float) (maxInterval : option float) (jitter : bool)
    (d0 : nat) (i : nat) : float :=
  let delayMs := (intervals * pow backoff (Z.of_nat i))%float in
  capped maxInterval
    (if jitter then (delayMs * (0.8 + random (d0 + i)%nat * 0.4))%float
     else delayMs).

(** How an outcome of the operation settles the wrapper when the loop stops
    on it. *)
Definition verdict (o : Outcome) : Completion :=
  match o with
  | Returned result => Resolved result
  | Raised error =>
      match normalize error with
      | Done e => Rejected (VError e)
      | Throws thrown => Rejected thrown
      end
  end.

(** The operation raised a value that is normalized to an error that the
    configuration retries. *)
Definition retryable (errors : option (list string)) (o : Outcome) : Prop :=
  exists error e, o = Raised error /\ normalize error = Done e /\
                  shouldRetryError e errors = true.

(** ** What a run is compared with *)

Definition baseOf (options : RetryOptions) : float :=
  intervals options ?? 1000%float.
Definition factorOf (options : RetryOptions) : float :=
  backoff options ?? 2%float.

(** The delay before attempt [i >= 1] with jitter off, in the words of the
    specification, [min(baseInterval * backoffFactor^(i-1), maxInterval or
    infinity)], the product, the power and the minimum being those of the
    doubles. *)
Definition plainDelay (pow : float -> Z -> float)
    (baseInterval backoffFactor : float) (maxInterval : option float)
    (i : Z) : float :=
  match maxInterval with
  | None => (baseInterval * pow backoffFactor (i - 1)%Z)%float
  | Some m => Math_min (baseInterval * pow backoffFactor (i - 1)%Z)%float m
  end.

Definition budget (options : RetryOptions) : Z := maxAttempts options ?? 3.

Definition waitOf (pow : float -> Z -> float) (random : nat -> float)
    (options : RetryOptions) : nat -> nat -> float :=
  waitAt pow random (baseOf options) (factorOf options)
         (maxInterval options) (jitter options ?? false).

(** ** Sample operations and configurations, after [src/lib/index.test.ts] *)

(** A power for the sample runs: repeated multiplication.  On the inputs
    used below it gives what [Math.pow] gives: the powers are small
    integers, exactly representable, or they overflow to infinity. *)
Fixpoint pow_nat (x : float) (n : nat) : float :=
  match n with
  | O => 1%float
  | S n => (x * pow_nat x n)%float
  end.

Definition samplePow (x : float) (n : Z) : float := pow_nat x (Z.to_nat n).

(** An operation that raises [error] on its first [k] invocations and
    returns [result] from then on. *)
Definition failsUntil (k : nat) (error result : Value) : Operation :=
  fun _ n => if (n <? k)%nat then Raised error else Returned result.

(** An operation that raises [error] every time. *)
Definition alwaysFails (error : Value) : Operation :=
  fun _ _ => Raised error.

(** What [String] throws for an object without a prototype. *)
Definition typeError : Error :=
  mkError "TypeError" "Cannot convert object to primitive value".

(** [Object.create(null)] *)
Definition unprintable : Value := VOpaque (VError typeError).

Definition noOptions : RetryOptions :=
  {| errors := None; intervals := None; backoff := None;
     maxAttempts := None; maxInterval := None; jitter := None |}.

(** [{ intervals: 1000, backoff: 3, maxAttempts: 4, maxInterval: 2000 }] *)
Definition cappedOptions : RetryOptions :=
  {| errors := None; intervals := Some 1000%float; backoff := Some 3%float;
     maxAttempts := Some 4; maxInterval := Some 2000%float; jitter := None |}.

(** [{ maxAttempts: 2 }] *)
Definition twoAttempts : RetryOptions :=
  {| errors := None; intervals := None; backoff := None;
     maxAttempts := Some 2; maxInterval := None; jitter := None |}.

(** [{ intervals: 100, backoff: 2, maxAttempts: 4 }] *)
Definition backoffOptions : RetryOptions :=
  {| errors := None; intervals := Some 100%float; backoff := Some 2%float;
     maxAttempts := Some 4; maxInterval := None; jitter := None |}.

(** [{ intervals: 0 }] *)
Definition zeroInterval : RetryOptions :=
  {| errors := None; intervals := Some 0%float; backoff := None;
     maxAttempts := None; maxInterval := None; jitter := None |}.

(** [{ intervals: 1000, backoff: 4, maxAttempts: 4, maxInterval: 3000,
      jitter: true }] *)
Definition jitterCapped : RetryOptions :=
  {| errors := None; intervals := Some 1000%float; backoff := Some 4%float;
     maxAttempts := Some 4; maxInterval := Some 3000%float;
     jitter := Some true |}.

(** [{ intervals: 500, backoff: 1, maxAttempts: 4 }] *)
Definition fixedInterval : RetryOptions :=
  {| errors := None; intervals := Some 500%float; backoff := Some 1%float;
     maxAttempts := Some 4; maxInterval := None; jitter := None |}.

(** [{ errors: ['CustomError'] }] *)
Definition customOnly : RetryOptions :=
  {| errors := Some ["CustomError"%string]; intervals := None;
     backoff := None; maxAttempts := None; maxInterval := None;
     jitter := None |}.

(** A random source that always answers one half. *)
Definition half : nat -> float := fun _ => 0.5%float.


Definition fresh : State := {| calls := 0; draws := 0; log := [] |}.

(** ** The helpers, run *)

Lemma calculateDelay_run pow random intervals backoff maxInterval jitter d0 i s :
  (jitter = true -> draws s = (d0 + i)%nat) ->
  calculateDelay pow random intervals backoff (Z.of_nat i) maxInterval jitter s =
  (waitAt pow random intervals backoff maxInterval jitter d0 i,
   {| calls := calls s;
      draws := if jitter then S (draws s) else draws s;
      log := log s |}).
Proof.
  intros Hd. unfold calculateDelay, waitAt, capped, bind, ret, Math_random.
  destruct jitter.
  - rewrite (Hd eq_refl). reflexivity.
  - destruct s; reflexivity.
Qed.

Lemma includes_In allowed x : includes allowed x = true <-> In x allowed.
Proof.
  unfold includes. rewrite existsb_exists. split.
  - intros [y [Hy Heq]]. apply String.eqb_eq in Heq. now subst.
  - intros Hin. exists x. split; [assumption | apply String.eqb_refl].
Qed.

Lemma shouldRetryError_listed e allowed :
  allowed <> [] ->
  (shouldRetryError e (Some allowed) = true <-> In (name e) allowed).
Proof.
  intros Hne. unfold shouldRetryError.
  destruct allowed as [|a l]; [contradiction|].
  cbn [List.length Nat.eqb]. apply includes_In.
Qed.



(** ** The arithmetic of the doubles *)

Lemma SFcompare_antisym x y :
  SFcompare y x = option_map CompOpp (SFcompare x y).
Proof.
  destruct x as [sx|sx| |sx mx ex], y as [sy|sy| |sy my ey]; cbn;
    try reflexivity;
    try (destruct sx; reflexivity); try (destruct sy; reflexivity);
    try (destruct sx, sy; reflexivity).
  destruct sx, sy; cbn; try reflexivity;
    rewrite (Z.compare_antisym ex ey);
    destruct (ex ?= ey)%Z; cbn; try reflexivity;
    change (PosDef.Pos.compare_cont Eq my mx) with (Pos.compare my mx);
    change (PosDef.Pos.compare_cont Eq mx my) with (Pos.compare mx my);
    rewrite (Pos.compare_antisym mx my); destruct (Pos.compare mx my);
    reflexivity.
Qed.

Lemma SFcompare_refl_finite s m e :
  SFcompare (S754_finite s m e) (S754_finite s m e) = Some Eq.
Proof.
  cbn. rewrite Z.compare_refl.
  change (PosDef.Pos.compare_cont Eq m m) with (Pos.compare m m).
  rewrite Pos.compare_refl. destruct s; reflexivity.
Qed.

Lemma ltb_asym x y : (x <? y)%float = true -> (y <? x)%float = false.
Proof.
  rewrite !FloatAxioms.ltb_spec. unfold SFltb.
  rewrite (SFcompare_antisym (Prim2SF x) (Prim2SF y)).
  destruct (SFcompare (Prim2SF x) (Prim2SF y)) as [[| |]|]; cbn; congruence.
Qed.

Lemma ltb_irrefl x : (x <? x)%float = false.
Proof.
  destruct (x <? x)%float eqn:H; [|reflexivity].
  now rewrite (ltb_asym _ _ H) in H.
Qed.

Lemma ltb_nan_r x : (x <? nan)%float = false.
Proof.
  rewrite FloatAxioms.ltb_spec. unfold SFltb.
  change (Prim2SF nan) with S754_nan.
  destruct (Prim2SF x); reflexivity.
Qed.

(** [Math.min(d, m)] never compares above [m]. *)
Lemma Math_min_le_r d m : (m <? Math_min d m)%float = false.
Proof.
  unfold Math_min.
  destruct (is_nan d || is_nan m); [apply ltb_nan_r|].
  destruct (d <? m)%float eqn:Hdm; [now apply ltb_asym|].
  destruct (m <? d)%float eqn:Hmd; [apply ltb_irrefl|].
  destruct (is_neg_zero d); [assumption | apply ltb_irrefl].
Qed.

Lemma is_zero_spec x : is_zero x = true -> exists s, Prim2SF x = S754_zero s.
Proof.
  unfold is_zero. rewrite FloatAxioms.eqb_spec.
  change (Prim2SF zero) with (S754_zero false).
  destruct (Prim2SF x) as [s|s| |s m e]; cbn; try discriminate.
  - intros _. now exists s.
  - destruct s; discriminate.
  - destruct s; discriminate.
Qed.

Lemma is_zero_of_SF x s : Prim2SF x = S754_zero s -> is_zero x = true.
Proof.
  intros H. unfold is_zero. rewrite FloatAxioms.eqb_spec, H. reflexivity.
Qed.

Lemma is_finite_spec x :
  is_finite x = true ->
  (exists s, Prim2SF x = S754_zero s) \/
  (exists s m e, Prim2SF x = S754_finite s m e).
Proof.
  unfold is_finite, is_nan, is_infinity.
  rewrite !FloatAxioms.eqb_spec, abs_spec.
  change (Prim2SF infinity) with (S754_infinity false).
  destruct (Prim2SF x) as [s|s| |s m e]; cbn.
  - intros _. left. now exists s.
  - destruct s; discriminate.
  - discriminate.
  - intros _. right. now exists s, m, e.
Qed.

(** A zero times a finite double is a zero. *)
Lemma zero_mul_finite b x :
  is_zero b = true -> is_finite x = true -> is_zero (b * x) = true.
Proof.
  intros Hb Hx. apply is_zero_spec in Hb. destruct Hb as [sb Hb].
  apply is_finite_spec in Hx.
  destruct Hx as [[s Hx] | [s [m [e Hx]]]];
    apply (is_zero_of_SF _ (xorb sb s)); rewrite mul_spec, Hb, Hx;
    reflexivity.
Qed.

(** The minimum of a zero and a double that is not below zero is a zero. *)
Lemma Math_min_zero d m :
  is_zero d = true -> (0 <=? m)%float = true ->
  is_zero (Math_min d m) = true.
Proof.
  intros Hd Hm. pose proof Hd as Hd'. apply is_zero_spec in Hd'.
  destruct Hd' as [sd Hsd]. unfold Math_min.
  assert (Hnd : is_nan d = false).
  { unfold is_nan. rewrite FloatAxioms.eqb_spec, Hsd. reflexivity. }
  rewrite FloatAxioms.leb_spec in Hm.
  change (Prim2SF 0) with (S754_zero false) in Hm.
  assert (Hnm : is_nan m = false).
  { unfold is_nan. rewrite FloatAxioms.eqb_spec.
    destruct (Prim2SF m) as [s|s| |s mm e] eqn:Hsm;
      try reflexivity; try discriminate.
    - destruct s; reflexivity.
    - unfold SFeqb. now rewrite SFcompare_refl_finite. }
  rewrite Hnd, Hnm. cbn [orb].
  destruct (d <? m)%float eqn:Hdm; [assumption|].
  rewrite FloatAxioms.ltb_spec in Hdm. rewrite Hsd in Hdm.
  destruct (m <? d)%float eqn:Hmd.
  - rewrite FloatAxioms.ltb_spec, Hsd in Hmd.
    destruct (Prim2SF m) as [s|s| |s mm e]; cbn in *; try discriminate;
      destruct s; discriminate.
  - destruct (is_neg_zero d); [assumption|].
    destruct (Prim2SF m) as [s|s| |s mm e] eqn:Hsm; cbn in *;
      try discriminate.
    + now apply (is_zero_of_SF _ s).
    + destruct s; discriminate.
    + destruct s; discriminate.
Qed.

Lemma digits2_shift52 m :
  Zdigits2 (Z.pos (4503599627370496 * m)) = Z.pos (digits2_pos m) + 52.
Proof. cbn. lia. Qed.

Lemma shr_shift52 m e :
  shr {| shr_m := Z.pos (4503599627370496 * m);
         shr_r := false; shr_s := false |} e 52 =
  ({| shr_m := Z.pos m; shr_r := false; shr_s := false |}, e + 52).
Proof. reflexivity. Qed.

Lemma SFmul_one_finite s m e :
  valid_binary (S754_finite s m e) = true ->
  SF64mul (S754_finite s m e) (S754_finite false 4503599627370496 (-52)) =
  S754_finite s m e.
Proof.
  cbn [valid_binary]. unfold bounded, canonical_mantissa.
  intros H. apply andb_prop in H. destruct H as [Hcan Hb].
  apply Z.eqb_eq in Hcan. apply Z.leb_le in Hb.
  unfold SF64mul, SFmul. rewrite xorb_false_r.
  rewrite (Pos.mul_comm m).
  unfold binary_round_aux, shr_fexp.
  rewrite digits2_shift52.
  replace (fexp prec emax (Z.pos (digits2_pos m) + 52 + (e + -52)) - (e + -52))
    with 52.
  2:{ replace (Z.pos (digits2_pos m) + 52 + (e + -52))
        with (Z.pos (digits2_pos m) + e) by lia.
      rewrite Hcan. lia. }
  change (shr_record_of_loc (Z.pos (4503599627370496 * m)) loc_Exact)
    with {| shr_m := Z.pos (4503599627370496 * m);
            shr_r := false; shr_s := false |}.
  rewrite shr_shift52.
  cbn [shr_m loc_of_shr_record round_nearest_even].
  replace (e + -52 + 52) with e by lia.
  change (Zdigits2 (Z.pos m)) with (Z.pos (digits2_pos m)).
  rewrite Hcan, Z.sub_diag. cbn [shr shr_record_of_loc shr_m].
  apply Z.leb_le in Hb. now rewrite Hb.
Qed.

(** A double times 1 is that double. *)
Lemma mul_one_r x : (x * 1)%float = x.
Proof.
  transitivity (SF2Prim (Prim2SF x)); [|apply SF2Prim_Prim2SF].
  rewrite <- (SF2Prim_Prim2SF (x * 1)).
  f_equal. rewrite mul_spec.
  change (Prim2SF 1) with (S754_finite false 4503599627370496 (-52)).
  pose proof (Prim2SF_valid x) as Hv.
  destruct (Prim2SF x) as [s|s| |s m e].
  - destruct s; reflexivity.
  - destruct s; reflexivity.
  - reflexivity.
  - now apply SFmul_one_finite.
Qed.

(** ** Reading the log of a run *)

Lemma invocations_app l1 l2 :
  invocations (l1 ++ l2) = invocations l1 ++ invocations l2.
Proof.
  induction l1 as [|[a|ms] l1 IH]; cbn; [reflexivity | now rewrite IH | exact IH].
Qed.

Lemma waits_app l1 l2 : waits (l1 ++ l2) = waits l1 ++ waits l2.
Proof.
  induction l1 as [|[a|ms] l1 IH]; cbn; [reflexivity | exact IH | now rewrite IH].
Qed.

Lemma invocations_rounds wait m : forall i,
  invocations (rounds wait i m) = map Z.of_nat (seq i m).
Proof.
  induction m as [|m IH]; intros i; cbn; [reflexivity | now rewrite IH].
Qed.

Lemma waits_rounds wait m : forall i,
  waits (rounds wait i m) = map wait (seq i m).
Proof.
  induction m as [|m IH]; intros i; cbn; [reflexivity | now rewrite IH].
Qed.

Lemma invocations_timeline wait n :
  (1 <= n)%nat -> invocations (timeline wait n) = map Z.of_nat (seq 0 n).
Proof.
  intros Hn. unfold timeline.
  rewrite invocations_app, invocations_rounds. cbn [invocations].
  replace n with (n - 1 + 1)%nat at 3 by lia.
  now rewrite seq_app, map_app.
Qed.

Lemma waits_timeline wait n :
  waits (timeline wait n) = map wait (seq 0 (n - 1)).
Proof.
  unfold timeline. rewrite waits_app, waits_rounds. cbn [waits].
  apply app_nil_r.
Qed.

Lemma timeline_last wait n d :
  last (timeline wait n) d = Invoke (Z.of_nat (n - 1)).
Proof. unfold timeline. apply last_last. Qed.

Lemma rounds_ext w1 w2 m : forall i,
  (forall j, w1 j = w2 j) -> rounds w1 i m = rounds w2 i m.
Proof.
  induction m as [|m IH]; intros i Hw; cbn; [reflexivity|].
  now rewrite Hw, (IH (S i) Hw).
Qed.

Lemma timeline_ext w1 w2 n :
  (forall j, w1 j = w2 j) -> timeline w1 n = timeline w2 n.
Proof. intros Hw. unfold timeline. now rewrite (rounds_ext w1 w2 _ _ Hw). Qed.

Lemma nth_error_map_seq {A : Type} (w : nat -> A) m i d :
  nth_error (map w (seq 0 m)) i = Some d -> (i < m)%nat /\ d = w i.
Proof.
  rewrite nth_error_map, nth_error_seq.
  destruct (Nat.ltb_spec i m) as [Hlt|Hge]; cbn; [|discriminate].
  intros H. injection H as <-. now split.
Qed.

(** ** The loop, run *)

Section Run.

Variable pow : float -> Z -> float.
Variable random : nat -> float.
Variable fn : Operation.
Variable errors : option (list string).
Variables intervals backoff : float.
Variable maxAttempts : Z.
Variable maxInterval : option float.
Variable jitter : bool.
Variable args : list Value.

(** Outside the budget the loop body does not run (line 83), and the
    [throw] of line 114 rejects with [lastError] as it was on entry. *)
Lemma attempts_exhausted fuel attempt e s :
  maxAttempts <= attempt ->
  attempts pow random fn errors intervals backoff maxAttempts maxInterval
           jitter args (S fuel) attempt e s =
  (Some (Rejected (thrown_lastError e)), s).
Proof.
  intros Hge. cbn [attempts].
  destruct (Z.ltb_spec attempt maxAttempts) as [Hlt|_]; [lia | reflexivity].
Qed.

(** The run of the loop entered at index [i0] with [rem] attempts left. *)
Lemma attempts_run : forall rem i0 fuel lastError s d0,
  maxAttempts = Z.of_nat (i0 + rem) ->
  (1 <= rem <= fuel)%nat ->
  (jitter = true -> draws s = (d0 + i0)%nat) ->
  exists n s',
    (1 <= n <= rem)%nat /\
    (forall j, (j < n - 1)%nat ->
               retryable errors (fn args (calls s + j)%nat)) /\
    (retryable errors (fn args (calls s + (n - 1))%nat) -> n = rem) /\
    attempts pow random fn errors intervals backoff maxAttempts maxInterval
             jitter args fuel (Z.of_nat i0) lastError s =
      (Some (verdict (fn args (calls s + (n - 1))%nat)), s') /\
    calls s' = (calls s + n)%nat /\
    draws s' = (if jitter then draws s + (n - 1) else draws s)%nat /\
    log s' = log s ++
             rounds (waitAt pow random intervals backoff maxInterval jitter d0)
                    i0 (n - 1) ++
             [Invoke (Z.of_nat (i0 + (n - 1)))].
Proof.
  induction rem as [|rem IH]; intros i0 fuel lastError s d0 Hmax Hrem Hd;
    [lia|].
  destruct fuel as [|fuel]; [lia|].
  cbn [attempts].
  destruct (Z.ltb_spec (Z.of_nat i0) maxAttempts) as [_|Hge]; [|lia].
  unfold bind at 1. unfold call at 1.
  (* the ways of stopping at this attempt *)
  assert (Hstop : forall c,
    c = verdict (fn args (calls s)) ->
    (retryable errors (fn args (calls s)) -> rem = O) ->
    exists n s',
      (1 <= n <= S rem)%nat /\
      (forall j, (j < n - 1)%nat ->
                 retryable errors (fn args (calls s + j)%nat)) /\
      (retryable errors (fn args (calls s + (n - 1))%nat) -> n = S rem) /\
      (Some c,
       {| calls := S (calls s); draws := draws s;
          log := log s ++ [Invoke (Z.of_nat i0)] |}) =
        (Some (verdict (fn args (calls s + (n - 1))%nat)), s') /\
      calls s' = (calls s + n)%nat /\
      draws s' = (if jitter then draws s + (n - 1) else draws s)%nat /\
      log s' = log s ++
               rounds (waitAt pow random intervals backoff maxInterval jitter
                              d0)
                      i0 (n - 1) ++
               [Invoke (Z.of_nat (i0 + (n - 1)))]).
  { intros c Hc Hlast. exists 1%nat. eexists.
    cbn [Nat.sub rounds app]. rewrite !Nat.add_0_r.
    repeat split; try lia.
    - intros Hr. rewrite (Hlast Hr). reflexivity.
    - rewrite Hc. reflexivity.
    - cbn. lia.
    - cbn. destruct jitter; reflexivity.
    - reflexivity. }
  destruct (fn args (calls s)) as [result|error] eqn:Hout.
  - (* the operation returned *)
    apply Hstop; [reflexivity|].
    intros [v [e [Hv _]]]. discriminate.
  - cbn [verdict] in Hstop.
    destruct (normalize error) as [e|thrown] eqn:Hnorm.
    + destruct (shouldRetryError e errors) eqn:Hretry; cbn [negb].
      * destruct (Z.eqb_spec (Z.of_nat i0) (maxAttempts - 1)) as [Hlast|Hmore].
        -- (* the budget is used up *)
           apply Hstop; [reflexivity|]. intros _. lia.
        -- (* wait, then go round again *)
           unfold bind at 1.
           rewrite (calculateDelay_run pow random intervals backoff
                      maxInterval jitter d0 i0); [|exact Hd].
           unfold bind at 1. unfold delay at 1.
           cbn [calls draws log].
           replace (Z.of_nat i0 + 1) with (Z.of_nat (S i0)) by lia.
           set (s1 := {| calls := S (calls s);
                         draws := if jitter then S (draws s) else draws s;
                         log := (log s ++ [Invoke (Z.of_nat i0)]) ++
                                [Wait (waitAt pow random intervals backoff
                                         maxInterval jitter d0 i0)] |}).
           destruct (IH (S i0) fuel (Some e) s1 d0)
             as [n [s' [Hn [Hpre [Hend [Hrun [Hcalls [Hdraws Hlog]]]]]]]].
           { lia. }
           { lia. }
           { intros Hj. subst s1. cbn [draws]. rewrite Hj.
             rewrite (Hd Hj). lia. }
           exists (S n), s'.
           replace (S n - 1)%nat with (S (n - 1)) by lia.
           subst s1. cbn [calls draws log] in *.
           replace (S (calls s) + (n - 1))%nat
             with (calls s + S (n - 1))%nat in * by lia.
           repeat split; try lia.
           ++ intros j Hj. destruct j as [|j].
              ** rewrite Nat.add_0_r, Hout. exists error, e. now repeat split.
              ** replace (calls s + S j)%nat with (S (calls s) + j)%nat by lia.
                 apply Hpre. lia.
           ++ intros Hr. specialize (Hend Hr). lia.
           ++ exact Hrun.
           ++ rewrite Hdraws. destruct jitter; lia.
           ++ rewrite Hlog. cbn [rounds].
              replace (S i0 + (n - 1))%nat with (i0 + S (n - 1))%nat by lia.
              rewrite <- !app_assoc. reflexivity.
      * (* the error is not one that is retried *)
        apply Hstop; [reflexivity|].
        intros [v [e' [Hv [Hn Hr]]]]. injection Hv as <-.
        rewrite Hnorm in Hn. injection Hn as <-. congruence.
    + (* the conversion by [String] threw *)
      apply Hstop; [reflexivity|].
      intros [v [e' [Hv [Hn _]]]]. injection Hv as <-.
      rewrite Hnorm in Hn. discriminate.
Qed.

End Run.

(** ** The wrapper, run *)

Lemma retry_run pow random fn options args fuel s :
  1 <= budget options ->
  (Z.to_nat (budget options) < fuel)%nat ->
  exists n s',
    (1 <= n)%nat /\ Z.of_nat n <= budget options /\
    (forall j, (j < n - 1)%nat ->
               retryable (errors options) (fn args (calls s + j)%nat)) /\
    (retryable (errors options) (fn args (calls s + (n - 1))%nat) ->
     Z.of_nat n = budget options) /\
    retry pow random fn options args fuel s =
      (Some (verdict (fn args (calls s + (n - 1))%nat)), s') /\
    calls s' = (calls s + n)%nat /\
    draws s' = (if jitter options ?? false then draws s + (n - 1)
                else draws s)%nat /\
    log s' = log s ++ timeline (waitOf pow random options (draws s)) n.
Proof.
  intros Hmax Hfuel. unfold retry.
  destruct (attempts_run pow random fn (errors options)
              (intervals options ?? 1000%float) (backoff options ?? 2%float)
              (budget options) (maxInterval options) (jitter options ?? false)
              args (Z.to_nat (budget options)) 0%nat fuel None s (draws s))
    as [n [s' [Hn [Hpre [Hend [Hrun [Hcalls [Hdraws Hlog]]]]]]]].
  - cbn [Nat.add]. lia.
  - lia.
  - intros _. lia.
  - exists n, s'. repeat split; try lia; try assumption.
    intros Hr. specialize (Hend Hr). lia.
Qed.

(** The run is determined by the first attempt on which the loop stops. *)
Lemma retry_run_at pow random fn options args fuel s k :
  (1 <= k)%nat -> Z.of_nat k <= budget options ->
  (Z.to_nat (budget options) < fuel)%nat ->
  (forall j, (j < k - 1)%nat ->
             retryable (errors options) (fn args (calls s + j)%nat)) ->
  (retryable (errors options) (fn args (calls s + (k - 1))%nat) ->
   Z.of_nat k = budget options) ->
  exists s',
    retry pow random fn options args fuel s =
      (Some (verdict (fn args (calls s + (k - 1))%nat)), s') /\
    calls s' = (calls s + k)%nat /\
    draws s' = (if jitter options ?? false then draws s + (k - 1)
                else draws s)%nat /\
    log s' = log s ++ timeline (waitOf pow random options (draws s)) k.
Proof.
  intros Hk Hkmax Hfuel Hbefore Hstop.
  destruct (retry_run pow random fn options args fuel s)
    as [n [s' [Hn [Hnmax [Hpre [Hend [Hrun [Hcalls [Hdraws Hlog]]]]]]]]];
    [lia | assumption |].
  assert (n = k) as ->.
  { destruct (Nat.lt_trichotomy n k) as [Hlt | [Heq | Hgt]].
    - assert (Hr : retryable (errors options) (fn args (calls s + (n - 1))%nat))
        by (apply Hbefore; lia).
      specialize (Hend Hr). lia.
    - assumption.
    - assert (Hr : retryable (errors options) (fn args (calls s + (k - 1))%nat))
        by (apply Hpre; lia).
      specialize (Hstop Hr). lia. }
  exists s'. repeat split; assumption.
Qed.

(** A run, as far as its waits and draws go, whatever [maxAttempts] is. *)
Lemma waits_of_run pow random fn options args fuel s :
  (Z.to_nat (budget options) < fuel)%nat ->
  exists c s' new m,
    retry pow random fn options args fuel s = (Some c, s') /\
    log s' = log s ++ new /\
    draws s' = (if jitter options ?? false then draws s + m else draws s)%nat /\
    waits new = map (waitOf pow random options (draws s)) (seq 0 m).
Proof.
  intros Hfuel.
  destruct (Z.leb_spec 1 (budget options)) as [Hmax|Hmax].
  - destruct (retry_run pow random fn options args fuel s Hmax Hfuel)
      as [n [s' [Hn [Hnmax [_ [_ [Hrun [Hcalls [Hdraws Hlog]]]]]]]]].
    exists (verdict (fn args (calls s + (n - 1))%nat)), s',
           (timeline (waitOf pow random options (draws s)) n), (n - 1)%nat.
    repeat split; try assumption. apply waits_timeline.
  - exists (Rejected VUndefined), s, [], 0%nat.
    rewrite app_nil_r. cbn [waits seq map].
    repeat split.
    + unfold retry. destruct fuel as [|fuel]; [lia|].
      apply attempts_exhausted. unfold budget in Hmax. lia.
    + destruct (jitter options ?? false); lia.
Qed.

(** ** The claims *)

(** C1. With [maxAttempts >= 1] and any operation, one call of the wrapper
    settles, given fuel above [maxAttempts], with the outcome of the last
    invocation; it invokes the operation [n] times with
    [1 <= n <= maxAttempts], at loop indices [0, 1, ..., n - 1]: the index
    goes up by one after each of the first [n - 1] invocations, all of
    which failed with errors that are retried, each followed by one wait;
    and the loop stops where it does only because the last invocation
    returned, or raised something that is not retried, or was attempt
    number [maxAttempts]. *)
Theorem retry_attempt_bounds pow random fn options args fuel s :
  1 <= budget options ->
  (Z.to_nat (budget options) < fuel)%nat ->
  exists c s' n new,
    retry pow random fn options args fuel s = (Some c, s') /\
    c = verdict (fn args (calls s + (n - 1))%nat) /\
    (1 <= n)%nat /\ Z.of_nat n <= budget options /\
    calls s' = (calls s + n)%nat /\
    log s' = log s ++ new /\
    new = timeline (waitOf pow random options (draws s)) n /\
    invocations new = map Z.of_nat (seq 0 n) /\
    List.length (waits new) = (n - 1)%nat /\
    (forall j, (j < n - 1)%nat ->
               retryable (errors options) (fn args (calls s + j)%nat)) /\
    (retryable (errors options) (fn args (calls s + (n - 1))%nat) ->
     Z.of_nat n = budget options).
Proof.
  intros Hmax Hfuel.
  destruct (retry_run pow random fn options args fuel s Hmax Hfuel)
    as [n [s' [Hn [Hnmax [Hpre [Hend [Hrun [Hcalls [_ Hlog]]]]]]]]].
  exists (verdict (fn args (calls s + (n - 1))%nat)), s', n,
         (timeline (waitOf pow random options (draws s)) n).
  repeat split; try assumption.
  - now apply invocations_timeline.
  - rewrite waits_timeline, length_map, length_seq. reflexivity.
Qed.

Lemma retry_attempt_bounds_witness :
  exists c s' n new,
    retry samplePow half
          (failsUntil 2 (VString "Temporary failure") (VString "success"))
          noOptions [] 4 fresh = (Some c, s') /\
    c = verdict (failsUntil 2 (VString "Temporary failure") (VString "success")
                            [] (calls fresh + (n - 1))%nat) /\
    (1 <= n)%nat /\ Z.of_nat n <= budget noOptions /\
    calls s' = (calls fresh + n)%nat /\
    log s' = log fresh ++ new /\
    new = timeline (waitOf samplePow half noOptions (draws fresh)) n /\
    invocations new = map Z.of_nat (seq 0 n) /\
    List.length (waits new) = (n - 1)%nat /\
    (forall j, (j < n - 1)%nat ->
       retryable (errors noOptions)
         (failsUntil 2 (VString "Temporary failure") (VString "success")
                     [] (calls fresh + j)%nat)) /\
    (retryable (errors noOptions)
       (failsUntil 2 (VString "Temporary failure") (VString "success")
                   [] (calls fresh + (n - 1))%nat) ->
     Z.of_nat n = budget noOptions).
Proof.
  apply retry_attempt_bounds; [cbn; lia | cbn; lia].
Defined.

(** C2. If the first [k - 1] invocations fail with retryable errors and
    invocation [k] returns [result], with [1 <= k <= maxAttempts], the
    wrapper resolves with [result] after exactly [k] invocations and
    [k - 1] waits, and the last event is the successful invocation: nothing
    is waited after it. *)
Theorem retry_succeeds_on_kth pow random fn options args fuel s k result :
  (1 <= k)%nat -> Z.of_nat k <= budget options ->
  (Z.to_nat (budget options) < fuel)%nat ->
  (forall j, (j < k - 1)%nat ->
             retryable (errors options) (fn args (calls s + j)%nat)) ->
  fn args (calls s + (k - 1))%nat = Returned result ->
  exists s' new,
    retry pow random fn options args fuel s = (Some (Resolved result), s') /\
    calls s' = (calls s + k)%nat /\
    log s' = log s ++ new /\
    new = timeline (waitOf pow random options (draws s)) k /\
    List.length (invocations new) = k /\
    List.length (waits new) = (k - 1)%nat /\
    last new (Wait 0) = Invoke (Z.of_nat (k - 1)).
Proof.
  intros Hk Hkmax Hfuel Hbefore Hok.
  destruct (retry_run_at pow random fn options args fuel s k)
    as [s' [Hrun [Hcalls [_ Hlog]]]]; try assumption.
  { rewrite Hok. intros [v [e [Hv _]]]. discriminate. }
  rewrite Hok in Hrun. cbn [verdict] in Hrun.
  exists s', (timeline (waitOf pow random options (draws s)) k).
  repeat split; try assumption.
  - rewrite invocations_timeline, length_map, length_seq by assumption.
    reflexivity.
  - rewrite waits_timeline, length_map, length_seq. reflexivity.
  - apply timeline_last.
Qed.

Lemma retry_succeeds_on_kth_witness :
  exists s' new,
    retry samplePow half
          (failsUntil 2 (VString "Temporary failure") (VString "success"))
          cappedOptions [] 5 fresh =
      (Some (Resolved (VString "success")), s') /\
    calls s' = (calls fresh + 3)%nat /\
    log s' = log fresh ++ new /\
    new = timeline (waitOf samplePow half cappedOptions (draws fresh)) 3 /\
    List.length (invocations new) = 3%nat /\
    List.length (waits new) = (3 - 1)%nat /\
    last new (Wait 0) = Invoke (Z.of_nat (3 - 1)).
Proof.
  apply retry_succeeds_on_kth.
  - lia.
  - cbn; lia.
  - cbn; lia.
  - intros [|[|j]] Hj; [| | cbn in Hj; lia];
      (exists (VString "Temporary failure"),
              (new_Error "Temporary failure"); repeat split).
  - reflexivity.
Defined.

(** C3, as the code has it.  With jitter off, [calculateDelay] called for
    the wait before attempt [i >= 1] (that is, at index [i - 1]) returns the
    product of the doubles [baseInterval] and [Math.pow(backoff, i - 1)],
    and [Math.min] of that product and [maxInterval] when there is a cap,
    and draws no random number; in a run of the wrapper the wait that
    separates attempt [i - 1] from attempt [i] is that number; and a zero
    [baseInterval] makes it a zero whenever [Math.pow(backoff, i - 1)] is
    finite, a cap being at least 0. *)
Theorem delay_without_jitter pow random fn options args fuel s :
  (forall i st, 1 <= i ->
     calculateDelay pow random (baseOf options) (factorOf options) (i - 1)
                    (maxInterval options) false st =
     (plainDelay pow (baseOf options) (factorOf options) (maxInterval options)
                 i, st)) /\
  (jitter options ?? false = false ->
   1 <= budget options ->
   (Z.to_nat (budget options) < fuel)%nat ->
   exists c s' n,
     retry pow random fn options args fuel s = (Some c, s') /\
     calls s' = (calls s + n)%nat /\
     draws s' = draws s /\
     log s' = log s ++
       timeline (fun j => plainDelay pow (baseOf options) (factorOf options)
                            (maxInterval options) (Z.of_nat j + 1)) n) /\
  (is_zero (baseOf options) = true ->
   (forall m, maxInterval options = Some m -> (0 <=? m)%float = true) ->
   forall i, 1 <= i ->
     is_finite (pow (factorOf options) (i - 1)) = true ->
     is_zero (plainDelay pow (baseOf options) (factorOf options)
                         (maxInterval options) i) = true).
Proof.
  split; [|split].
  - intros i st _. unfold calculateDelay, plainDelay, bind, ret.
    destruct (maxInterval options); reflexivity.
  - intros Hjit Hmax Hfuel.
    destruct (retry_run pow random fn options args fuel s Hmax Hfuel)
      as [n [s' [_ [_ [_ [_ [Hrun [Hcalls [Hdraws Hlog]]]]]]]]].
    rewrite Hjit in Hdraws.
    exists (verdict (fn args (calls s + (n - 1))%nat)), s', n.
    repeat split; try assumption.
    rewrite Hlog. f_equal. apply timeline_ext. intros j.
    unfold waitOf, waitAt, capped, plainDelay.
    rewrite Hjit. replace (Z.of_nat j + 1 - 1) with (Z.of_nat j) by lia.
    reflexivity.
  - intros Hzero Hcap i _ Hfin. unfold plainDelay.
    pose proof (zero_mul_finite _ _ Hzero Hfin) as Hprod.
    destruct (maxInterval options) as [m|] eqn:Hm; [|exact Hprod].
    apply Math_min_zero; [exact Hprod | now apply Hcap].
Qed.

Lemma delay_without_jitter_witness :
  (exists c s' n,
     retry samplePow half
           (failsUntil 2 (VString "Temporary failure") (VString "success"))
           zeroInterval [] 4 fresh = (Some c, s') /\
     calls s' = (calls fresh + n)%nat /\
     draws s' = draws fresh /\
     log s' = log fresh ++
       timeline (fun j => plainDelay samplePow (baseOf zeroInterval)
                            (factorOf zeroInterval)
                            (maxInterval zeroInterval) (Z.of_nat j + 1)) n) /\
  is_zero (plainDelay samplePow (baseOf zeroInterval) (factorOf zeroInterval)
                      (maxInterval zeroInterval) 3) = true.
Proof.
  split.
  - apply (proj1 (proj2 (delay_without_jitter samplePow half
             (failsUntil 2 (VString "Temporary failure") (VString "success"))
             zeroInterval [] 4%nat fresh)));
      [reflexivity | cbn; lia | cbn; lia].
  - apply (proj2 (proj2 (delay_without_jitter samplePow half
             (failsUntil 2 (VString "Temporary failure") (VString "success"))
             zeroInterval [] 4%nat fresh)));
      [reflexivity | discriminate | lia | reflexivity].
Defined.

(** C3 as stated fails: with [baseInterval = 0 >= 0], [backoff = 1e200 >= 1]
    and no cap, the delay computed before attempt 3 is
    [0 * Math.pow(1e200, 2) = 0 * Infinity], which is NaN and not 0. *)
Lemma delay_without_jitter_counterexample :
  (0 <=? 0)%float = true /\ (1 <=? 1e200)%float = true /\ 1 <= 3 /\
  samplePow 1e200 (3 - 1) = infinity /\
  fst (calculateDelay samplePow half 0 1e200 (3 - 1) None false fresh) = nan /\
  is_zero (fst (calculateDelay samplePow half 0 1e200 (3 - 1) None false
                               fresh)) = false.
Proof. repeat split; try reflexivity. lia. Qed.

(** C4. [shouldRetryError] answers [true] when no list is configured or the
    list is empty; for a non-empty list it answers [true] exactly when the
    error's name is an element of the list, so a name that merely begins a
    listed name is refused; and its answer depends on nothing but the name and
    the list. *)
Theorem shouldRetryError_policy (error : Error) :
  shouldRetryError error None = true /\
  shouldRetryError error (Some []) = true /\
  (forall allowed, allowed <> [] ->
     (shouldRetryError error (Some allowed) = true <->
      In (name error) allowed)) /\
  shouldRetryError {| name := "Network"; message := message error |}
                   (Some ["NetworkError"%string]) = false /\
  (forall other allowedErrors, name other = name error ->
     shouldRetryError other allowedErrors =
     shouldRetryError error allowedErrors).
Proof.
  repeat split; try reflexivity.
  - now apply shouldRetryError_listed.
  - now apply shouldRetryError_listed.
  - intros other allowedErrors Hname. unfold shouldRetryError.
    now rewrite Hname.
Qed.

(** C5. When the first invocation raises a value whose normalized name is
    not in a non-empty [errors] list, the wrapper rejects with that
    normalized error after exactly one invocation, whatever [maxAttempts]
    is, and waits for nothing. *)
Theorem non_retryable_fails_at_once
    pow random fn options args fuel s error e allowed :
  1 <= budget options ->
  (Z.to_nat (budget options) < fuel)%nat ->
  errors options = Some allowed -> allowed <> [] ->
  fn args (calls s) = Raised error ->
  normalize error = Done e ->
  ~ In (name e) allowed ->
  exists s',
    retry pow random fn options args fuel s =
      (Some (Rejected (VError e)), s') /\
    calls s' = S (calls s) /\
    draws s' = draws s /\
    log s' = log s ++ [Invoke 0] /\
    waits [Invoke 0] = [].
Proof.
  intros Hmax Hfuel Herrors Hne Hraised Hnorm Hnot.
  assert (Hno : ~ retryable (errors options) (fn args (calls s + (1 - 1))%nat)).
  { cbn [Nat.sub]. rewrite Nat.add_0_r, Hraised, Herrors.
    intros [v [e' [Hv [Hn Hr]]]]. injection Hv as <-.
    rewrite Hnorm in Hn. injection Hn as <-.
    apply (shouldRetryError_listed _ _ Hne) in Hr. contradiction. }
  destruct (retry_run_at pow random fn options args fuel s 1)
    as [s' [Hrun [Hcalls [Hdraws Hlog]]]]; try assumption; try lia.
  { intros Hr. contradiction. }
  cbn [Nat.sub] in Hrun. rewrite Nat.add_0_r, Hraised in Hrun.
  cbn [verdict] in Hrun. rewrite Hnorm in Hrun.
  exists s'. repeat split; try assumption.
  - lia.
  - rewrite Hdraws. destruct (jitter options ?? false); lia.
Qed.

Lemma non_retryable_fails_at_once_witness :
  exists s',
    retry samplePow half
          (alwaysFails (VError (mkError "Error" "Generic error")))
          customOnly [] 4 fresh =
      (Some (Rejected (VError (mkError "Error" "Generic error"))), s') /\
    calls s' = S (calls fresh) /\
    draws s' = draws fresh /\
    log s' = log fresh ++ [Invoke 0] /\
    waits [Invoke 0] = [].
Proof.
  apply (non_retryable_fails_at_once samplePow half
           (alwaysFails (VError (mkError "Error" "Generic error")))
           customOnly [] 4%nat fresh
           (VError (mkError "Error" "Generic error"))
           (mkError "Error" "Generic error") ["CustomError"%string]).
  - cbn; lia.
  - cbn; lia.
  - reflexivity.
  - discriminate.
  - reflexivity.
  - reflexivity.
  - cbn. intros [H|[]]. discriminate H.
Defined.

(** C6. When each of the [maxAttempts] invocations fails with a retryable
    error, the wrapper rejects with the normalized form of the value raised
    by the last of them, after exactly [maxAttempts] invocations and
    [maxAttempts - 1] waits; the last event is the last invocation, and the
    random numbers drawn are one per wait when jitter is on and none when it
    is off: no delay is computed or waited after the last attempt. *)
Theorem exhaustion_surfaces_last_error pow random fn options args fuel s :
  1 <= budget options ->
  (Z.to_nat (budget options) < fuel)%nat ->
  (forall j, (j < Z.to_nat (budget options))%nat ->
             retryable (errors options) (fn args (calls s + j)%nat)) ->
  exists error e s' new,
    fn args (calls s + (Z.to_nat (budget options) - 1))%nat = Raised error /\
    normalize error = Done e /\
    retry pow random fn options args fuel s =
      (Some (Rejected (VError e)), s') /\
    calls s' = (calls s + Z.to_nat (budget options))%nat /\
    draws s' = (draws s + (if jitter options ?? false
                           then Z.to_nat (budget options) - 1 else 0))%nat /\
    log s' = log s ++ new /\
    new = timeline (waitOf pow random options (draws s))
                   (Z.to_nat (budget options)) /\
    List.length (invocations new) = Z.to_nat (budget options) /\
    List.length (waits new) = (Z.to_nat (budget options) - 1)%nat /\
    last new (Wait 0) = Invoke (budget options - 1).
Proof.
  intros Hmax Hfuel Hall.
  set (k := Z.to_nat (budget options)) in *.
  destruct (Hall (k - 1)%nat) as [error [e [Hraised [Hnorm _]]]]; [lia|].
  destruct (retry_run_at pow random fn options args fuel s k)
    as [s' [Hrun [Hcalls [Hdraws Hlog]]]]; try assumption; try lia.
  { intros j Hj. apply Hall. lia. }
  rewrite Hraised in Hrun. cbn [verdict] in Hrun. rewrite Hnorm in Hrun.
  exists error, e, s', (timeline (waitOf pow random options (draws s)) k).
  repeat split; try assumption.
  - rewrite Hdraws. destruct (jitter options ?? false); lia.
  - rewrite invocations_timeline, length_map, length_seq by lia. reflexivity.
  - rewrite waits_timeline, length_map, length_seq. reflexivity.
  - rewrite timeline_last. f_equal. lia.
Qed.

Lemma exhaustion_surfaces_last_error_witness :
  exists error e s' new,
    alwaysFails (VError (mkError "Error" "boom")) []
      (calls fresh + (Z.to_nat (budget jitterCapped) - 1))%nat =
      Raised error /\
    normalize error = Done e /\
    retry samplePow half (alwaysFails (VError (mkError "Error" "boom")))
          jitterCapped [] 5 fresh =
      (Some (Rejected (VError e)), s') /\
    calls s' = (calls fresh + Z.to_nat (budget jitterCapped))%nat /\
    draws s' = (draws fresh + (if jitter jitterCapped ?? false
                               then Z.to_nat (budget jitterCapped) - 1
                               else 0))%nat /\
    log s' = log fresh ++ new /\
    new = timeline (waitOf samplePow half jitterCapped (draws fresh))
                   (Z.to_nat (budget jitterCapped)) /\
    List.length (invocations new) = Z.to_nat (budget jitterCapped) /\
    List.length (waits new) = (Z.to_nat (budget jitterCapped) - 1)%nat /\
    last new (Wait 0) = Invoke (budget jitterCapped - 1).
Proof.
  apply exhaustion_surfaces_last_error.
  - cbn; lia.
  - cbn; lia.
  - intros j _. exists (VError (mkError "Error" "boom")),
                       (mkError "Error" "boom").
    repeat split.
Defined.









(** C10. With [maxAttempts <= 0] the loop body never runs: the operation is
    not invoked, nothing is waited or drawn (the state is unchanged), and
    the wrapper rejects from the final [throw] with [lastError] still
    unset, that is with [undefined], not with a normalized error. *)
Theorem no_attempt_without_budget pow random fn options args fuel s :
  budget options <= 0 ->
  (1 <= fuel)%nat ->
  retry pow random fn options args fuel s = (Some (Rejected VUndefined), s).
Proof.
  intros Hmax Hfuel. unfold retry.
  destruct fuel as [|fuel]; [lia|].
  now apply attempts_exhausted.
Qed.

Lemma no_attempt_without_budget_witness :
  retry samplePow half (alwaysFails (VString "boom"))
        {| errors := None; intervals := None; backoff := None;
           maxAttempts := Some 0; maxInterval := None; jitter := None |}
        [] 1 fresh = (Some (Rejected VUndefined), fresh).
Proof.
  apply no_attempt_without_budget; [cbn; lia | lia].
Defined.

(** ** The scenarios of the tests, run *)

(** An operation that always fails with "boom" under [{ maxAttempts: 2 }]:
    rejection with "boom" after two invocations. *)
Example scenario_boom :
  retry samplePow half (alwaysFails (VError (new_Error "boom")))
        twoAttempts [] 3 fresh =
  (Some (Rejected (VError (new_Error "boom"))),
   {| calls := 2; draws := 0; log := [Invoke 0; Wait 1000; Invoke 1] |}).
Proof. vm_compute. reflexivity. Qed.

(** Three failures, then success, under
    [{ intervals: 100, backoff: 2, maxAttempts: 4 }]: four invocations
    separated by waits of 100, 200 and 400. *)
Example scenario_backoff :
  retry samplePow half
        (failsUntil 3 (VError (new_Error "Temporary failure"))
                    (VString "success"))
        backoffOptions [] 5 fresh =
  (Some (Resolved (VString "success")),
   {| calls := 4; draws := 0;
      log := [Invoke 0; Wait 100; Invoke 1; Wait 200; Invoke 2; Wait 400;
              Invoke 3] |}).
Proof. vm_compute. reflexivity. Qed.

(** The same operation under
    [{ intervals: 1000, backoff: 3, maxAttempts: 4, maxInterval: 2000 }]:
    waits of 1000, 2000 (capped) and 2000 (capped). *)
Example scenario_capped :
  retry samplePow half
        (failsUntil 3 (VError (new_Error "Temporary failure"))
                    (VString "success"))
        cappedOptions [] 5 fresh =
  (Some (Resolved (VString "success")),
   {| calls := 4; draws := 0;
      log := [Invoke 0; Wait 1000; Invoke 1; Wait 2000; Invoke 2; Wait 2000;
              Invoke 3] |}).
Proof. vm_compute. reflexivity. Qed.

(** With [{ intervals: 0 }] every wait is zero. *)
Example scenario_zero_interval :
  retry samplePow half
        (failsUntil 2 (VError (new_Error "Temporary failure"))
                    (VString "success"))
        zeroInterval [] 4 fresh =
  (Some (Resolved (VString "success")),
   {| calls := 3; draws := 0;
      log := [Invoke 0; Wait 0; Invoke 1; Wait 0; Invoke 2] |}).
Proof. vm_compute. reflexivity. Qed.

(** A [CustomError] and then a [NetworkError] under
    [{ errors: ['CustomError'] }]: the second error is surfaced after two
    invocations. *)
Example scenario_error_filter :
  retry samplePow half
        (fun _ n => match n with
                    | O => Raised (VError (mkError "CustomError" "Custom error"))
                    | 1%nat =>
                        Raised (VError (mkError "NetworkError" "Network error"))
                    | _ => Returned (VString "success")
                    end)
        customOnly [] 4 fresh =
  (Some (Rejected (VError (mkError "NetworkError" "Network error"))),
   {| calls := 2; draws := 0; log := [Invoke 0; Wait 1000; Invoke 1] |}).
Proof. vm_compute. reflexivity. Qed.

(** Jitter and cap together, the random source answering one half (a
    factor of exactly 1): the first wait is 1000, the next two are capped
    at 3000, and one number is drawn per wait. *)
Example scenario_jitter_capped :
  retry samplePow half
        (failsUntil 3 (VError (new_Error "Temporary failure"))
                    (VString "success"))
        jitterCapped [] 5 fresh =
  (Some (Resolved (VString "success")),
   {| calls := 4; draws := 3;
      log := [Invoke 0; Wait 1000; Invoke 1; Wait 3000; Invoke 2; Wait 3000;
              Invoke 3] |}).
Proof. vm_compute. reflexivity. Qed.

(** A zero base interval under the factor [1e200]: the third wait is
    [0 * Infinity], NaN. *)
Example scenario_zero_interval_overflow :
  retry samplePow half (alwaysFails (VString "boom"))
        {| errors := None; intervals := Some 0%float;
           backoff := Some 1e200%float; maxAttempts := Some 4;
           maxInterval := None; jitter := None |}
        [] 5 fresh =
  (Some (Rejected (VError (new_Error "boom"))),
   {| calls := 4; draws := 0;
      log := [Invoke 0; Wait 0; Invoke 1; Wait 0; Invoke 2; Wait nan;
              Invoke 3] |}).
Proof. vm_compute. reflexivity. Qed.

(** ** Further properties of the delays *)

(** X1. When [maxInterval] is configured, no wait of a run compares above
    it, whatever the base interval, the factor, the jitter and the random
    source are (a wait that is NaN compares above nothing). *)
Theorem waits_never_exceed_cap pow random fn options args fuel s m :
  maxInterval options = Some m ->
  (Z.to_nat (budget options) < fuel)%nat ->
  exists c s' new,
    retry pow random fn options args fuel s = (Some c, s') /\
    log s' = log s ++ new /\
    Forall (fun w => (m <? w)%float = false) (waits new).
Proof.
  intros Hm Hfuel.
  destruct (waits_of_run pow random fn options args fuel s Hfuel)
    as [c [s' [new [k [Hrun [Hlog [_ Hwaits]]]]]]].
  exists c, s', new. repeat split; try assumption.
  rewrite Hwaits. apply Forall_map, Forall_forall. intros j _.
  unfold waitOf, waitAt, capped. rewrite Hm. apply Math_min_le_r.
Qed.

(** Three waits: 1000, 3000 (capped) and 3000 (capped). *)
Lemma waits_never_exceed_cap_witness :
  exists c s' new,
    retry samplePow half (alwaysFails (VString "boom")) jitterCapped [] 5
          fresh = (Some c, s') /\
    log s' = log fresh ++ new /\
    Forall (fun w => (3000 <? w)%float = false) (waits new).
Proof.
  apply waits_never_exceed_cap; [reflexivity | cbn; lia].
Defined.

(** X5. With jitter off and a factor of 1 the interval is fixed: every wait
    of a run equals the base interval, capped if a cap is configured;
    [Math.pow(1, j)] is 1. *)
Theorem unit_factor_fixed_interval pow random fn options args fuel s :
  jitter options ?? false = false ->
  factorOf options = 1%float ->
  (forall j, 0 <= j -> pow 1%float j = 1%float) ->
  (Z.to_nat (budget options) < fuel)%nat ->
  exists c s' new,
    retry pow random fn options args fuel s = (Some c, s') /\
    log s' = log s ++ new /\
    Forall (fun w => w = capped (maxInterval options) (baseOf options))
           (waits new).
Proof.
  intros Hjit Hone Hpow Hfuel.
  destruct (waits_of_run pow random fn options args fuel s Hfuel)
    as [c [s' [new [k [Hrun [Hlog [_ Hwaits]]]]]]].
  exists c, s', new. repeat split; try assumption.
  rewrite Hwaits. apply Forall_map, Forall_forall. intros j _.
  unfold waitOf, waitAt. rewrite Hjit, Hone, Hpow by lia.
  now rewrite mul_one_r.
Qed.

(** Three waits of 500. *)
Lemma unit_factor_fixed_interval_witness :
  exists c s' new,
    retry samplePow half (alwaysFails (VString "boom")) fixedInterval [] 5
          fresh = (Some c, s') /\
    log s' = log fresh ++ new /\
    Forall (fun w => w = capped (maxInterval fixedInterval)
                                (baseOf fixedInterval))
           (waits new).
Proof.
  apply unit_factor_fixed_interval.
  - reflexivity.
  - reflexivity.
  - intros j _. unfold samplePow.
    induction (Z.to_nat j) as [|n IH]; [reflexivity|].
    cbn [pow_nat]. rewrite IH. reflexivity.
  - cbn; lia.
Defined.

(** X8. [Math.random] is consulted exactly once per wait when jitter is on
    and never when it is off. *)
Theorem one_draw_per_wait pow random fn options args fuel s :
  (Z.to_nat (budget options) < fuel)%nat ->
  exists c s' new,
    retry pow random fn options args fuel s = (Some c, s') /\
    log s' = log s ++ new /\
    draws s' = (draws s + (if jitter options ?? false
                           then List.length (waits new) else 0))%nat.
Proof.
  intros Hfuel.
  destruct (waits_of_run pow random fn options args fuel s Hfuel)
    as [c [s' [new [k [Hrun [Hlog [Hdraws Hwaits]]]]]]].
  exists c, s', new. repeat split; try assumption.
  rewrite Hwaits, length_map, length_seq, Hdraws.
  destruct (jitter options ?? false); lia.
Qed.

Lemma one_draw_per_wait_witness :
  exists c s' new,
    retry samplePow half (alwaysFails (VString "boom")) jitterCapped [] 5
          fresh = (Some c, s') /\
    log s' = log fresh ++ new /\
    draws s' = (draws fresh + (if jitter jitterCapped ?? false
                               then List.length (waits new) else 0))%nat.
Proof.
  apply one_draw_per_wait. cbn; lia.
Defined.

(** ** Further properties of the attempt loop *)

(** X10. With [maxAttempts = 1] the wrapper invokes the operation exactly
    once and settles with its outcome: the result it returned, the
    normalized form of what it raised, or what [String] threw when it could
    not convert the raised value; it never waits and never draws, whatever
    the outcome and whatever the other options. *)
Theorem single_attempt pow random fn options args fuel s :
  budget options = 1 ->
  (1 < fuel)%nat ->
  retry pow random fn options args fuel s =
  (Some (verdict (fn args (calls s))),
   {| calls := S (calls s); draws := draws s;
      log := log s ++ [Invoke 0] |}).
Proof.
  intros Hone Hfuel.
  destruct (retry_run pow random fn options args fuel s)
    as [n [s' [Hn [Hnmax [_ [_ [Hrun [Hcalls [Hdraws Hlog]]]]]]]]];
    [lia | rewrite Hone; cbn; lia |].
  assert (n = 1%nat) as -> by lia.
  cbn [Nat.sub] in *. rewrite Nat.add_0_r in *.
  rewrite Hrun. f_equal.
  destruct s' as [c d l]. cbn [calls draws log] in *.
  subst c l. f_equal; [lia | destruct (jitter options ?? false); lia].
Qed.

Lemma single_attempt_witness :
  retry samplePow half (alwaysFails unprintable)
        {| errors := None; intervals := None; backoff := None;
           maxAttempts := Some 1; maxInterval := None; jitter := Some true |}
        [] 2 fresh =
  (Some (verdict (alwaysFails unprintable [] (calls fresh))),
   {| calls := S (calls fresh); draws := draws fresh;
      log := log fresh ++ [Invoke 0] |}).
Proof.
  apply single_attempt; [reflexivity | lia].
Defined.

(** X11. With [errors] absent or empty, an operation that raises on each of
    its invocations values that are [Error]s or that [String] converts is
    invoked exactly [maxAttempts] times before the wrapper rejects with the
    normalized last value. *)
Theorem unfiltered_failures_use_all_attempts pow random fn options args fuel s :
  errors options = None \/ errors options = Some [] ->
  1 <= budget options ->
  (Z.to_nat (budget options) < fuel)%nat ->
  (forall j, (j < Z.to_nat (budget options))%nat ->
     exists v e, fn args (calls s + j)%nat = Raised v /\
                 normalize v = Done e) ->
  exists v e s',
    fn args (calls s + (Z.to_nat (budget options) - 1))%nat = Raised v /\
    normalize v = Done e /\
    retry pow random fn options args fuel s =
      (Some (Rejected (VError e)), s') /\
    calls s' = (calls s + Z.to_nat (budget options))%nat.
Proof.
  intros Herrors Hmax Hfuel Hall.
  assert (Hretry : forall j, (j < Z.to_nat (budget options))%nat ->
            retryable (errors options) (fn args (calls s + j)%nat)).
  { intros j Hj. destruct (Hall j Hj) as [v [e [Hv He]]]. exists v, e.
    split; [assumption|]. split; [assumption|].
    destruct Herrors as [-> | ->]; reflexivity. }
  destruct (Hall (Z.to_nat (budget options) - 1)%nat) as [v [e [Hv He]]];
    [lia|].
  destruct (retry_run_at pow random fn options args fuel s
              (Z.to_nat (budget options)))
    as [s' [Hrun [Hcalls _]]]; try assumption; try lia.
  { intros j Hj. apply Hretry. lia. }
  rewrite Hv in Hrun. cbn [verdict] in Hrun. rewrite He in Hrun.
  exists v, e, s'. repeat split; assumption.
Qed.

Lemma unfiltered_failures_use_all_attempts_witness :
  exists v e s',
    alwaysFails (VString "String error") []
      (calls fresh + (Z.to_nat (budget noOptions) - 1))%nat = Raised v /\
    normalize v = Done e /\
    retry samplePow half (alwaysFails (VString "String error")) noOptions
          [] 4 fresh = (Some (Rejected (VError e)), s') /\
    calls s' = (calls fresh + Z.to_nat (budget noOptions))%nat.
Proof.
  apply unfiltered_failures_use_all_attempts.
  - left; reflexivity.
  - cbn; lia.
  - cbn; lia.
  - intros j _. exists (VString "String error"), (new_Error "String error").
    split; reflexivity.
Defined.

(** X12. The wrapper resolves only with what the operation returned: when
    it resolves with [result], the last invocation of the operation returned
    [result], and every invocation before it failed with a retryable
    error. *)
Theorem resolution_is_verbatim pow random fn options args fuel s result s' :
  (Z.to_nat (budget options) < fuel)%nat ->
  retry pow random fn options args fuel s = (Some (Resolved result), s') ->
  (calls s < calls s')%nat /\
  fn args (calls s' - 1)%nat = Returned result /\
  (forall j, (calls s <= j < calls s' - 1)%nat ->
             retryable (errors options) (fn args j)).
Proof.
  intros Hfuel Hres.
  destruct (Z.leb_spec 1 (budget options)) as [Hmax|Hmax].
  - destruct (retry_run pow random fn options args fuel s Hmax Hfuel)
      as [n [s1 [Hn [_ [Hpre [_ [Hrun [Hcalls _]]]]]]]].
    rewrite Hrun in Hres. injection Hres as Hv <-.
    replace (calls s1 - 1)%nat with (calls s + (n - 1))%nat by lia.
    destruct (fn args (calls s + (n - 1))%nat) as [r|v].
    + injection Hv as <-. repeat split; try lia.
      intros j Hj.
      replace j with (calls s + (j - calls s))%nat by lia.
      apply Hpre. lia.
    + cbn [verdict] in Hv. destruct (normalize v); discriminate.
  - unfold retry in Hres. destruct fuel as [|fuel]; [lia|].
    rewrite attempts_exhausted in Hres by (unfold budget in Hmax; lia).
    discriminate.
Qed.

Lemma resolution_is_verbatim_witness :
  (calls fresh < 3)%nat /\
  failsUntil 2 (VString "Temporary failure") (VString "success") []
             (3 - 1)%nat = Returned (VString "success") /\
  (forall j, (calls fresh <= j < 3 - 1)%nat ->
     retryable (errors noOptions)
       (failsUntil 2 (VString "Temporary failure") (VString "success") [] j)).
Proof.
  apply (resolution_is_verbatim samplePow half
           (failsUntil 2 (VString "Temporary failure") (VString "success"))
           noOptions [] 4%nat fresh (VString "success")
           {| calls := 3; draws := 0;
              log := [Invoke 0; Wait 1000; Invoke 1; Wait 2000; Invoke 2] |}).
  - cbn; lia.
  - reflexivity.
Defined.

(** X13. Nothing of one call of the wrapper is carried to the next: called
    twice in a row, the wrapper starts the second call at index 0 and gives
    it the whole of [maxAttempts] again, however the first call ended: the
    second call goes on as long as the operation fails with retryable
    errors and stops on such a failure only at its own attempt number
    [maxAttempts]. *)
Theorem successive_calls_start_afresh pow random fn options args fuel s :
  1 <= budget options ->
  (Z.to_nat (budget options) < fuel)%nat ->
  exists c1 s1 s2 n1 n2,
    retry pow random fn options args fuel s = (Some c1, s1) /\
    retry pow random fn options args fuel s1 =
      (Some (verdict (fn args (calls s1 + (n2 - 1))%nat)), s2) /\
    (1 <= n1)%nat /\ Z.of_nat n1 <= budget options /\
    (1 <= n2)%nat /\ Z.of_nat n2 <= budget options /\
    calls s1 = (calls s + n1)%nat /\
    calls s2 = (calls s1 + n2)%nat /\
    invocations (log s2) =
      invocations (log s) ++ map Z.of_nat (seq 0 n1) ++ map Z.of_nat (seq 0 n2)
    /\
    (forall j, (j < n2 - 1)%nat ->
               retryable (errors options) (fn args (calls s1 + j)%nat)) /\
    (retryable (errors options) (fn args (calls s1 + (n2 - 1))%nat) ->
     Z.of_nat n2 = budget options).
Proof.
  intros Hmax Hfuel.
  destruct (retry_run pow random fn options args fuel s Hmax Hfuel)
    as [n1 [s1 [Hn1 [Hmax1 [_ [_ [Hrun1 [Hcalls1 [_ Hlog1]]]]]]]]].
  destruct (retry_run pow random fn options args fuel s1 Hmax Hfuel)
    as [n2 [s2 [Hn2 [Hmax2 [Hpre2 [Hend2 [Hrun2 [Hcalls2 [_ Hlog2]]]]]]]]].
  exists (verdict (fn args (calls s + (n1 - 1))%nat)), s1, s2, n1, n2.
  repeat split; try assumption; try lia.
  rewrite Hlog2, Hlog1, !invocations_app, !invocations_timeline by assumption.
  now rewrite app_assoc.
Qed.

Lemma successive_calls_start_afresh_witness :
  exists c1 s1 s2 n1 n2,
    retry samplePow half
          (failsUntil 4 (VString "Temporary failure") (VString "success"))
          noOptions [] 4 fresh = (Some c1, s1) /\
    retry samplePow half
          (failsUntil 4 (VString "Temporary failure") (VString "success"))
          noOptions [] 4 s1 =
      (Some (verdict (failsUntil 4 (VString "Temporary failure")
                                 (VString "success") []
                                 (calls s1 + (n2 - 1))%nat)), s2) /\
    (1 <= n1)%nat /\ Z.of_nat n1 <= budget noOptions /\
    (1 <= n2)%nat /\ Z.of_nat n2 <= budget noOptions /\
    calls s1 = (calls fresh + n1)%nat /\
    calls s2 = (calls s1 + n2)%nat /\
    invocations (log s2) =
      invocations (log fresh) ++
      map Z.of_nat (seq 0 n1) ++ map Z.of_nat (seq 0 n2) /\
    (forall j, (j < n2 - 1)%nat ->
       retryable (errors noOptions)
         (failsUntil 4 (VString "Temporary failure") (VString "success") []
                     (calls s1 + j)%nat)) /\
    (retryable (errors noOptions)
       (failsUntil 4 (VString "Temporary failure") (VString "success") []
                   (calls s1 + (n2 - 1))%nat) ->
     Z.of_nat n2 = budget noOptions).
Proof.
  apply successive_calls_start_afresh; [cbn; lia | cbn; lia].
Defined.

(** X14. The wrapper does not give up early: when the first [j]
    invocations fail with retryable errors and [j < maxAttempts], the
    operation is invoked at least [j + 1] times. *)
Theorem retryable_failures_are_retried pow random fn options args fuel s j :
  Z.of_nat j < budget options ->
  (Z.to_nat (budget options) < fuel)%nat ->
  (forall i, (i < j)%nat ->
             retryable (errors options) (fn args (calls s + i)%nat)) ->
  exists c s',
    retry pow random fn options args fuel s = (Some c, s') /\
    (calls s + j + 1 <= calls s')%nat.
Proof.
  intros Hj Hfuel Hfail.
  destruct (retry_run pow random fn options args fuel s)
    as [n [s' [Hn [Hnmax [_ [Hend [Hrun [Hcalls _]]]]]]]]; [lia | assumption |].
  exists (verdict (fn args (calls s + (n - 1))%nat)), s'.
  split; [assumption|].
  destruct (Nat.le_gt_cases (j + 1) n) as [Hle|Hgt]; [lia|].
  assert (Hlast : Z.of_nat n = budget options)
    by (apply Hend, Hfail; lia).
  lia.
Qed.

Lemma retryable_failures_are_retried_witness :
  exists c s',
    retry samplePow half
          (failsUntil 2 (VString "Temporary failure") (VString "success"))
          noOptions [] 4 fresh = (Some c, s') /\
    (calls fresh + 2 + 1 <= calls s')%nat.
Proof.
  apply retryable_failures_are_retried.
  - cbn; lia.
  - cbn; lia.
  - intros [|[|i]] Hi; [| | lia];
      (exists (VString "Temporary failure"),
              (new_Error "Temporary failure"); repeat split).
Defined.

(** X15. An error that [shouldRetryError] accepts is surfaced only when the
    attempts are used up: if the wrapper rejects with the normalized form of
    the value raised by the last invocation, and the configuration retries
    that error, the operation was invoked exactly [maxAttempts] times. *)
Theorem retryable_rejection_means_exhaustion
    pow random fn options args fuel s e s' :
  (Z.to_nat (budget options) < fuel)%nat ->
  retry pow random fn options args fuel s = (Some (Rejected (VError e)), s') ->
  (exists v, fn args (calls s' - 1)%nat = Raised v /\ normalize v = Done e) ->
  shouldRetryError e (errors options) = true ->
  Z.of_nat (calls s' - calls s) = budget options.
Proof.
  intros Hfuel Hrej [v [Hlast Hnorm]] Hretry.
  destruct (Z.leb_spec 1 (budget options)) as [Hmax|Hmax].
  - destruct (retry_run pow random fn options args fuel s Hmax Hfuel)
      as [n [s1 [Hn [_ [_ [Hend [Hrun [Hcalls _]]]]]]]].
    rewrite Hrun in Hrej. injection Hrej as _ <-.
    replace (calls s1 - 1)%nat with (calls s + (n - 1))%nat in Hlast by lia.
    replace (calls s1 - calls s)%nat with n by lia.
    apply Hend. exists v, e. now repeat split.
  - unfold retry in Hrej. destruct fuel as [|fuel]; [lia|].
    rewrite attempts_exhausted in Hrej by (unfold budget in Hmax; lia).
    discriminate.
Qed.

Lemma retryable_rejection_means_exhaustion_witness :
  Z.of_nat (2 - calls fresh) = budget twoAttempts.
Proof.
  apply (retryable_rejection_means_exhaustion samplePow half
           (alwaysFails (VError (new_Error "boom"))) twoAttempts [] 3%nat
           fresh (new_Error "boom")
           {| calls := 2; draws := 0;
              log := [Invoke 0; Wait 1000; Invoke 1] |}).
  - cbn; lia.
  - reflexivity.
  - exists (VError (new_Error "boom")). split; reflexivity.
  - reflexivity.
Defined.

(** ** Further properties of the classifier *)

(** X16. [shouldRetryError] treats the list as a set: two lists with the
    same elements, in any order and with any repetitions, give the same
    answer for every error. *)
Theorem shouldRetryError_set_semantics error allowed1 allowed2 :
  (forall x, In x allowed1 <-> In x allowed2) ->
  shouldRetryError error (Some allowed1) =
  shouldRetryError error (Some allowed2).
Proof.
  intros Hsame.
  destruct allowed1 as [|a1 l1], allowed2 as [|a2 l2].
  - reflexivity.
  - exfalso. apply (proj2 (Hsame a2)). now left.
  - exfalso. apply (proj1 (Hsame a1)). now left.
  - destruct (shouldRetryError error (Some (a2 :: l2))) eqn:H2.
    + apply shouldRetryError_listed; [discriminate|].
      apply Hsame. apply shouldRetryError_listed in H2; [assumption|].
      discriminate.
    + destruct (shouldRetryError error (Some (a1 :: l1))) eqn:H1;
        [|reflexivity].
      apply shouldRetryError_listed in H1; [|discriminate].
      apply Hsame in H1.
      apply (shouldRetryError_listed error (a2 :: l2)) in H1;
        [congruence | discriminate].
Qed.

Lemma shouldRetryError_set_semantics_witness :
  shouldRetryError (mkError "TimeoutError" "late")
                   (Some ["NetworkError"; "TimeoutError"]%string) =
  shouldRetryError (mkError "TimeoutError" "late")
                   (Some ["TimeoutError"; "NetworkError"; "TimeoutError"]%string).
Proof.
  apply shouldRetryError_set_semantics.
  intros x. cbn. tauto.
Defined.

(** X17. Adding names to a non-empty list never turns a retried error into
    a surfaced one. *)
Theorem shouldRetryError_widening error allowed1 allowed2 :
  allowed1 <> [] ->
  (forall x, In x allowed1 -> In x allowed2) ->
  shouldRetryError error (Some allowed1) = true ->
  shouldRetryError error (Some allowed2) = true.
Proof.
  intros Hne Hincl Hretry.
  apply shouldRetryError_listed in Hretry; [|assumption].
  apply shouldRetryError_listed; [|now apply Hincl].
  intros ->. exact (Hincl _ Hretry).
Qed.

Lemma shouldRetryError_widening_witness :
  shouldRetryError (mkError "CustomError" "Custom error")
                   (Some ["CustomError"; "NetworkError"]%string) = true.
Proof.
  apply (shouldRetryError_widening (mkError "CustomError" "Custom error")
           ["CustomError"%string]).
  - discriminate.
  - intros x [<-|[]]. now left.
  - reflexivity.
Defined.

(** ** The defaults *)

(** X18. Without options the wrapper makes three attempts, waits 1000 after
    the first failure and 2000 after the second ([Math.pow(2, 0)] is 1 and
    [Math.pow(2, 1)] is 2), retries every error and never draws a random
    number: an operation whose first three invocations raise values that
    are [Error]s or that [String] converts is invoked three times and the
    third raised value, normalized, is the rejection. *)
Theorem default_configuration pow random fn args fuel s :
  pow 2%float 0 = 1%float -> pow 2%float 1 = 2%float ->
  (3 < fuel)%nat ->
  (forall j, (j < 3)%nat ->
     exists v e, fn args (calls s + j)%nat = Raised v /\
                 normalize v = Done e) ->
  exists v e,
    fn args (calls s + 2)%nat = Raised v /\
    normalize v = Done e /\
    retry pow random fn noOptions args fuel s =
      (Some (Rejected (VError e)),
       {| calls := calls s + 3; draws := draws s;
          log := log s ++
                 [Invoke 0; Wait 1000; Invoke 1; Wait 2000; Invoke 2] |}).
Proof.
  intros Hpow0 Hpow1 Hfuel Hall.
  destruct (Hall 2%nat) as [v [e [Hv He]]]; [lia|].
  destruct (retry_run_at pow random fn noOptions args fuel s 3)
    as [s' [Hrun [Hcalls [Hdraws Hlog]]]]; try (cbn; lia).
  { intros j Hj. destruct (Hall j) as [w [e' [Hw He']]]; [cbn in Hj; lia|].
    exists w, e'. now repeat split. }
  cbn [Nat.sub] in Hrun. rewrite Hv in Hrun.
  cbn [verdict] in Hrun. rewrite He in Hrun.
  exists v, e. split; [assumption|]. split; [assumption|].
  rewrite Hrun. f_equal.
  destruct s' as [c d l]. cbn [calls draws log] in *.
  cbn in Hdraws. subst c d l. f_equal. f_equal.
  unfold timeline. cbn [Nat.sub rounds app].
  unfold waitOf, waitAt, capped, baseOf, factorOf. cbn.
  rewrite Hpow0, Hpow1. reflexivity.
Qed.

Lemma default_configuration_witness :
  exists v e,
    alwaysFails (VString "String error") [] (calls fresh + 2)%nat = Raised v /\
    normalize v = Done e /\
    retry samplePow half (alwaysFails (VString "String error")) noOptions
          [] 4 fresh =
      (Some (Rejected (VError e)),
       {| calls := calls fresh + 3; draws := draws fresh;
          log := log fresh ++
                 [Invoke 0; Wait 1000; Invoke 1; Wait 2000; Invoke 2] |}).
Proof.
  apply default_configuration.
  - reflexivity.
  - reflexivity.
  - lia.
  - intros j _. exists (VString "String error"), (new_Error "String error").
    split; reflexivity.
Defined.
